(** * Vibrato delay line of [comparison_gen.py]

    A shallow embedding of [vibrato] and of the channel dispatch of
    [process_audio_file], with the properties of the delay line, the tap
    indices and the error paths.

    Numbers.  A Python / NumPy float is modelled by [num]: a real number, or
    one of the three IEEE special values.  Arithmetic on finite values is
    exact (rounding to binary64 and overflow to infinity are left out);
    arithmetic on special values follows IEEE-754.  Integers (Python [int],
    NumPy [int64]) are [Z]; the 64-bit range is only visible in the
    conversion of a non-finite float. *)

From Stdlib Require Import String Reals Lra Lia ZArith Bool List.
Import ListNotations.

Local Open Scope R_scope.

(** ** Exceptions and results *)

Inductive exn : Type :=
| ValueError (msg : string)
| OverflowError (msg : string)
| ZeroDivisionError (msg : string)
| IndexError (msg : string).

Inductive result (A : Type) : Type :=
| Ok (a : A)
| Raise (e : exn).

Arguments Ok {A} a.
Arguments Raise {A} e.

Definition bind {A B : Type} (m : result A) (k : A -> result B) : result B :=
  match m with
  | Ok a => k a
  | Raise e => Raise e
  end.

Notation "x <- m ;; k" := (bind m (fun x => k))
  (at level 61, m at next level, right associativity).

(** ** Floats *)

Inductive num : Type :=
| Fin (r : R)
| PInf
| NInf
| NaN.

Definition is_finite (a : num) : bool :=
  match a with
  | Fin _ => true
  | _ => false
  end.

Definition of_int (z : Z) : num := Fin (IZR z).

Definition zero : num := Fin 0.

(** Infinity of the sign of [r] (for [r <> 0]). *)
Definition inf_of_sign (r : R) : num :=
  if Rlt_dec 0 r then PInf else NInf.

Definition nopp (a : num) : num :=
  match a with
  | Fin r => Fin (- r)
  | PInf => NInf
  | NInf => PInf
  | NaN => NaN
  end.

Definition nmul (a b : num) : num :=
  match a, b with
  | NaN, _ | _, NaN => NaN
  | Fin r, Fin s => Fin (r * s)
  | Fin r, PInf | PInf, Fin r =>
      if Req_dec_T r 0 then NaN else inf_of_sign r
  | Fin r, NInf | NInf, Fin r =>
      if Req_dec_T r 0 then NaN else inf_of_sign (- r)
  | PInf, PInf | NInf, NInf => PInf
  | PInf, NInf | NInf, PInf => NInf
  end.

Definition nadd (a b : num) : num :=
  match a, b with
  | NaN, _ | _, NaN => NaN
  | Fin r, Fin s => Fin (r + s)
  | PInf, NInf | NInf, PInf => NaN
  | PInf, _ | _, PInf => PInf
  | NInf, _ | _, NInf => NInf
  end.

Definition nsub (a b : num) : num := nadd a (nopp b).

(** Python's [/] on scalars: a zero divisor raises. *)
Definition ndiv (a b : num) : result num :=
  match b with
  | Fin s =>
      if Req_dec_T s 0 then Raise (ZeroDivisionError "float division by zero")
      else match a with
           | Fin r => Ok (Fin (r / s))
           | PInf => Ok (inf_of_sign s)
           | NInf => Ok (inf_of_sign (- s))
           | NaN => Ok NaN
           end
  | NaN => Ok NaN
  | PInf | NInf =>
      match a with
      | Fin _ => Ok (Fin 0)
      | _ => Ok NaN
      end
  end.

(** [np.pi] and [np.sin]. *)
Definition np_pi : num := Fin PI.

Definition np_sin (a : num) : num :=
  match a with
  | Fin r => Fin (sin r)
  | _ => NaN
  end.

(** [floor] on the reals. *)
Definition Rfloor (r : R) : Z := Int_part r.

(** Python's [round] of one argument: nearest integer, ties to even. *)
Definition round_half_even (r : R) : Z :=
  let f := Rfloor r in
  let d := r - IZR f in
  if Rlt_dec d (1 / 2) then f
  else if Rlt_dec (1 / 2) d then (f + 1)%Z
  else if Z.even f then f else (f + 1)%Z.

Definition py_round (a : num) : result Z :=
  match a with
  | Fin r => Ok (round_half_even r)
  | NaN => Raise (ValueError "cannot convert float NaN to integer")
  | PInf | NInf =>
      Raise (OverflowError "cannot convert float infinity to integer")
  end.

(** [np.floor(a).astype(int)].  NumPy does not raise on a non-finite value
    (it warns); on x86-64 the conversion then yields the least [int64]. *)
Definition INT64_MIN : Z := (- 2 ^ 63)%Z.

Definition floor_astype_int (a : num) : Z :=
  match a with
  | Fin r => Rfloor r
  | _ => INT64_MIN
  end.

(** ** One-dimensional arrays *)

(** [a[idx]] with an integer index: a negative index counts from the end. *)
Definition getitem (a : list num) (idx : Z) : result num :=
  let len := Z.of_nat (length a) in
  let j := if (idx <? 0)%Z then (idx + len)%Z else idx in
  if ((0 <=? j) && (j <? len))%Z then Ok (nth (Z.to_nat j) a zero)
  else Raise (IndexError "index out of bounds").

Fixpoint list_set (a : list num) (n : nat) (v : num) : list num :=
  match a, n with
  | [], _ => []
  | _ :: t, O => v :: t
  | h :: t, S n' => h :: list_set t n' v
  end.

(** [a[n] = v] for a loop index [n] (never negative). *)
Definition setitem (a : list num) (n : nat) (v : num) : result (list num) :=
  if (n <? length a)%nat then Ok (list_set a n v)
  else Raise (IndexError "index out of bounds").

(** [a[:k]]. *)
Definition slice_to (a : list num) (k : Z) : list num :=
  if (k <? 0)%Z then firstn (Z.to_nat (Z.of_nat (length a) + k)) a
  else firstn (Z.to_nat k) a.

(** [np.zeros(L)].  A negative length is refused; the limit on what can be
    allocated for a very large [L] is left out. *)
Definition np_zeros (L : Z) : result (list num) :=
  if (L <? 0)%Z then Raise (ValueError "negative dimensions are not allowed")
  else Ok (repeat zero (Z.to_nat L)).

(** [np.zeros_like(x)]. *)
Definition np_zeros_like (x : list num) : list num :=
  repeat zero (length x).

(** [np.concatenate(([s], Delayline[: L - 1]))]: the new sample enters at
    index 0, the history moves up by one and the oldest sample is dropped. *)
Definition push (L : Z) (s : num) (Delayline : list num) : list num :=
  s :: slice_to Delayline (L - 1).

(** ** The vibrato *)

(** [for n in ns: st = body n st], stopping at the first exception. *)
Fixpoint for_each {S : Type} (body : nat -> S -> result S)
  (ns : list nat) (st : S) : result S :=
  match ns with
  | [] => Ok st
  | n :: ns' => st' <- body n st ;; for_each body ns' st'
  end.

(** [range(k)] for a [k] that may be negative is [seq 0 k] with the
    truncated subtraction of [nat]. *)
Definition range (k : nat) : list nat := seq 0 k.

Section Vibrato.

Variable x : list num.
Variables DELAY WIDTH : Z.
Variable MODFREQ : num.
Variable L : Z.

(** [MOD], [TAP], [i] and [frac] of iteration [n] (lines 21-25). *)
Definition MOD (n : nat) : num :=
  let M := MODFREQ in
  np_sin (nmul (nmul (nmul M (of_int 2)) np_pi) (of_int (Z.of_nat n))).

Definition TAP (n : nat) : num :=
  nadd (of_int DELAY) (nmul (of_int WIDTH) (MOD n)).

Definition tap_index (n : nat) : Z := floor_astype_int (TAP n).

Definition tap_frac (n : nat) : num := nsub (TAP n) (of_int (tap_index n)).

(** The linear interpolation of line 28. *)
Definition interpolate (Delayline : list num) (i : Z) (frac : num)
  : result num :=
  a <- getitem Delayline i ;;
  b <- getitem Delayline (i - 1) ;;
  Ok (nadd (nmul a frac) (nmul b (nsub (of_int 1) frac))).

(** The body of the loop (lines 21-28) on the state [(Delayline, y)]. *)
Definition loop_body (n : nat) (st : list num * list num)
  : result (list num * list num) :=
  let '(Delayline, y) := st in
  let i := tap_index n in
  let frac := tap_frac n in
  xn <- getitem x (Z.of_nat n) ;;
  let Delayline := push L xn Delayline in
  v <- interpolate Delayline i frac ;;
  y <- setitem y n v ;;
  Ok (Delayline, y).

End Vibrato.

(** Lines 11-30: everything after the two derived sample counts. *)
Definition vibrato_body (x : list num) (SAMPLERATE Modfreq : num)
  (DELAY WIDTH : Z) : result (list num) :=
  if (WIDTH >? DELAY)%Z
  then Raise (ValueError "Width greater than basic delay !!!")
  else
    MODFREQ <- ndiv Modfreq SAMPLERATE ;;
    let LEN := length x in
    let L := (2 + DELAY + WIDTH * 2)%Z in
    Delayline <- np_zeros L ;;
    let y := np_zeros_like x in
    st <- for_each (loop_body x DELAY WIDTH MODFREQ L) (range (LEN - 1))
            (Delayline, y) ;;
    Ok (snd st).

(** Lines 8-10: the basic delay and the modulation width in samples. *)
Definition derive_DELAY (SAMPLERATE Width : num) : result Z :=
  let Delay := Width in
  py_round (nmul Delay SAMPLERATE).

Definition derive_WIDTH (SAMPLERATE Width : num) : result Z :=
  py_round (nmul Width SAMPLERATE).

Definition vibrato (x : list num) (SAMPLERATE Modfreq Width : num)
  : result (list num) :=
  DELAY <- derive_DELAY SAMPLERATE Width ;;
  WIDTH <- derive_WIDTH SAMPLERATE Width ;;
  vibrato_body x SAMPLERATE Modfreq DELAY WIDTH.

(** ** Channel dispatch *)

(** The decoded data of [sf.read]: a one-dimensional array of samples, or a
    two-dimensional array held by its columns, one per channel. *)
Inductive ndarray : Type :=
| Array1 (samples : list num)
| Array2 (channels : list (list num)).

(** [np.apply_along_axis(f, 0, data, ...)]: [f] on every column, in order;
    the first exception ends the call. *)
Fixpoint map_result (f : list num -> result (list num))
  (cols : list (list num)) : result (list (list num)) :=
  match cols with
  | [] => Ok []
  | c :: cols' =>
      o <- f c ;;
      os <- map_result f cols' ;;
      Ok (o :: os)
  end.

Definition apply_along_axis0 (f : list num -> result (list num))
  (cols : list (list num)) : result (list (list num)) :=
  match cols with
  | [] => Raise (ValueError
            "Cannot apply_along_axis when any iteration dimensions are 0")
  | _ => map_result f cols
  end.

(** Lines 36-43 of [process_audio_file]: from the decoded data to the data
    handed to [sf.write]. *)
Definition process_audio_file (data : ndarray) (samplerate Modfreq Width : num)
  : result ndarray :=
  match data with
  | Array2 channels =>
      processed <- apply_along_axis0
                     (fun c => vibrato c samplerate Modfreq Width) channels ;;
      Ok (Array2 processed)
  | Array1 samples =>
      processed <- vibrato samples samplerate Modfreq Width ;;
      Ok (Array1 processed)
  end.

(** ** Specification-level views of the loop *)

(** The delay line after the first [k] samples of [x] were pushed. *)
Fixpoint delayline_after (x : list num) (L : Z) (k : nat) : list num :=
  match k with
  | O => repeat zero (Z.to_nat L)
  | S k' => push L (nth k' x zero) (delayline_after x L k')
  end.

(** What iteration [n] stores in [y[n]]. *)
Definition out_sample (x : list num) (DELAY WIDTH : Z) (MODFREQ : num)
  (L : Z) (n : nat) : result num :=
  interpolate (delayline_after x L (S n))
    (tap_index DELAY WIDTH MODFREQ n) (tap_frac DELAY WIDTH MODFREQ n).

(** The tap position of iteration [n] as a real number, for a finite
    modulation frequency [m] (in cycles per sample). *)
Definition tap_real (DELAY WIDTH : Z) (m : R) (n : nat) : R :=
  IZR DELAY + IZR WIDTH * sin (m * 2 * PI * IZR (Z.of_nat n)).

(** The value of [y[n]] when iteration [n] raises nothing. *)
Definition out_of (x : list num) (DELAY WIDTH : Z) (MODFREQ : num) (L : Z)
  (n : nat) : num :=
  match out_sample x DELAY WIDTH MODFREQ L n with
  | Ok v => v
  | Raise _ => zero
  end.

(** The sample count derived from the width, [round(Width * SAMPLERATE)]. *)
Definition width_samples (w sr : R) : Z := round_half_even (w * sr).

(** The output of one channel on a finite configuration. *)
Definition vibrato_out (sr mf w : R) (x : list num) : list num :=
  let W := width_samples w sr in
  let L := (2 + W + W * 2)%Z in
  map (out_of x W W (Fin (mf / sr)) L) (range (length x - 1))
  ++ repeat zero (length x - (length x - 1)).

(** The ramp of the fixed-delay example. *)
Definition ramp : list R := [0; 1; 2; 3; 4; 5; 6; 7; 8; 9].

(** The input of the example: nine samples [1, ..., 9]. *)
Definition count_up : list R := [1; 2; 3; 4; 5; 6; 7; 8; 9].

(** [sin(2 * pi * n / 4)] by the residue [r] of [n] modulo 4. *)
Definition quarter_sin (r : nat) : R :=
  match r with
  | 0%nat => 0
  | 1%nat => 1
  | 2%nat => 0
  | _ => -1
  end.

(** The tap [2 + 2 * sin(2 * pi * n / 4)] by the residue [r] of [n]. *)
Definition quarter_tap (r : nat) : Z :=
  match r with
  | 0%nat => 2
  | 1%nat => 4
  | 2%nat => 2
  | _ => 0
  end.

(** ** Real-valued views, for inputs made of finite samples *)

(** Slot [j] of the delay line after [k] pushes of the samples [xs]: the
    sample pushed [j] pushes ago, or the zero the line started with. *)
Definition dl_real (xs : list R) (L : Z) (k j : nat) : R :=
  if ((j <? k) && (j <? Z.to_nat L))%nat then nth (k - 1 - j) xs 0 else 0.

(** The slot that an index in [[-L, L)] reads in an array of length [L]. *)
Definition wrap_index (L idx : Z) : nat :=
  Z.to_nat (if (idx <? 0)%Z then idx + L else idx)%Z.

(** The value stored in [y[n]], as a real number. *)
Definition out_real (xs : list R) (DELAY WIDTH : Z) (m : R) (L : Z)
  (n : nat) : R :=
  let tap := tap_real DELAY WIDTH m n in
  let i := Rfloor tap in
  let frac := tap - IZR i in
  dl_real xs L (S n) (wrap_index L i) * frac
  + dl_real xs L (S n) (wrap_index L (i - 1)) * (1 - frac).

(** The output of one channel of finite samples, as real numbers. *)
Definition vibrato_real (sr mf w : R) (xs : list R) : list R :=
  let W := width_samples w sr in
  let L := (2 + W + W * 2)%Z in
  map (out_real xs W W (mf / sr) L) (range (length xs - 1))
  ++ repeat 0 (length xs - (length xs - 1)).

(** * Properties *)

(** ** Floor and rounding on the reals *)

Lemma Rfloor_spec (r : R) : IZR (Rfloor r) <= r < IZR (Rfloor r) + 1.
Proof.
  unfold Rfloor. destruct (base_Int_part r) as [H1 H2]. split; lra.
Qed.

Lemma Rfloor_unique (r : R) (z : Z) :
  IZR z <= r < IZR z + 1 -> Rfloor r = z.
Proof.
  intros [H1 H2]. unfold Rfloor. symmetry. apply Int_part_spec. split; lra.
Qed.

Lemma Rfloor_IZR (z : Z) : Rfloor (IZR z) = z.
Proof. apply Rfloor_unique. lra. Qed.

Lemma Rfloor_lower (r : R) (z : Z) : IZR z <= r -> (z <= Rfloor r)%Z.
Proof.
  intros H. destruct (Rfloor_spec r) as [_ H2].
  assert (IZR z < IZR (Rfloor r + 1)) by (rewrite plus_IZR; lra).
  apply lt_IZR in H0. lia.
Qed.

Lemma Rfloor_upper (r : R) (z : Z) : r <= IZR z -> (Rfloor r <= z)%Z.
Proof.
  intros H. destruct (Rfloor_spec r) as [H1 _].
  apply le_IZR. lra.
Qed.

Lemma round_half_even_IZR (z : Z) : round_half_even (IZR z) = z.
Proof.
  unfold round_half_even. rewrite Rfloor_IZR.
  destruct (Rlt_dec (IZR z - IZR z) (1 / 2)) as [_ | H]; [reflexivity | lra].
Qed.

(** ** Arrays *)

Lemma getitem_nonneg (a : list num) (idx : Z) :
  (0 <= idx < Z.of_nat (length a))%Z ->
  getitem a idx = Ok (nth (Z.to_nat idx) a zero).
Proof.
  intros H. unfold getitem.
  destruct (Z.ltb_spec idx 0); [lia |].
  destruct (Z.leb_spec 0 idx); [| lia].
  destruct (Z.ltb_spec idx (Z.of_nat (length a))); [reflexivity | lia].
Qed.

Lemma getitem_neg (a : list num) (idx : Z) :
  (- Z.of_nat (length a) <= idx < 0)%Z ->
  getitem a idx = Ok (nth (Z.to_nat (idx + Z.of_nat (length a))) a zero).
Proof.
  intros H. unfold getitem.
  destruct (Z.ltb_spec idx 0); [| lia].
  destruct (Z.leb_spec 0 (idx + Z.of_nat (length a))); [| lia].
  destruct (Z.ltb_spec (idx + Z.of_nat (length a)) (Z.of_nat (length a)));
    [reflexivity | lia].
Qed.

Lemma getitem_out_of_bounds (a : list num) (idx : Z) :
  (idx < - Z.of_nat (length a) \/ Z.of_nat (length a) <= idx)%Z ->
  getitem a idx = Raise (IndexError "index out of bounds").
Proof.
  intros H. unfold getitem.
  destruct (Z.ltb_spec idx 0).
  - destruct (Z.leb_spec 0 (idx + Z.of_nat (length a))); [lia | reflexivity].
  - destruct (Z.leb_spec 0 idx); [| lia].
    destruct (Z.ltb_spec idx (Z.of_nat (length a))); [lia | reflexivity].
Qed.

Lemma getitem_in_bounds (a : list num) (idx : Z) :
  (- Z.of_nat (length a) <= idx < Z.of_nat (length a))%Z ->
  exists v, getitem a idx = Ok v.
Proof.
  intros H. destruct (Z.lt_ge_cases idx 0).
  - eexists. apply getitem_neg. lia.
  - eexists. apply getitem_nonneg. lia.
Qed.

Lemma length_list_set (a : list num) (n : nat) (v : num) :
  length (list_set a n v) = length a.
Proof.
  revert n. induction a as [| h t IH]; intros [| n]; simpl; auto.
Qed.

Lemma list_set_app (l1 l2 : list num) (h v : num) :
  list_set (l1 ++ h :: l2) (length l1) v = l1 ++ v :: l2.
Proof.
  induction l1 as [| e l1 IH]; simpl; [reflexivity | now rewrite IH].
Qed.

Lemma length_slice_to (a : list num) (k : Z) :
  (0 <= k <= Z.of_nat (length a))%Z ->
  length (slice_to a k) = Z.to_nat k.
Proof.
  intros H. unfold slice_to.
  destruct (Z.ltb_spec k 0); [lia |].
  rewrite length_firstn. lia.
Qed.

Lemma length_push (L : Z) (s : num) (Delayline : list num) :
  (1 <= L)%Z -> length Delayline = Z.to_nat L ->
  length (push L s Delayline) = Z.to_nat L.
Proof.
  intros HL Hlen. unfold push. simpl.
  rewrite length_slice_to by lia. lia.
Qed.

(** ** The loop *)

Lemma for_each_app {S : Type} (body : nat -> S -> result S)
  (l1 l2 : list nat) (st : S) :
  for_each body (l1 ++ l2) st =
  (st' <- for_each body l1 st ;; for_each body l2 st').
Proof.
  revert st. induction l1 as [| n l1 IH]; intros st; simpl; [reflexivity |].
  destruct (body n st); simpl; auto.
Qed.

Lemma length_delayline_after (x : list num) (L : Z) (k : nat) :
  (1 <= L)%Z -> length (delayline_after x L k) = Z.to_nat L.
Proof.
  intros HL. induction k as [| k IH]; cbn [delayline_after].
  - apply repeat_length.
  - now apply length_push.
Qed.

Section Loop.

Variable x : list num.
Variables DELAY WIDTH : Z.
Variable MODFREQ : num.
Variable L : Z.
Variable out : nat -> num.

Lemma for_each_loop_body (k : nat) :
  (k <= length x)%nat ->
  (forall n, (n < k)%nat ->
     out_sample x DELAY WIDTH MODFREQ L n = Ok (out n)) ->
  for_each (loop_body x DELAY WIDTH MODFREQ L) (range k)
    (repeat zero (Z.to_nat L), np_zeros_like x) =
  Ok (delayline_after x L k,
      map out (range k) ++ repeat zero (length x - k)).
Proof.
  unfold range. induction k as [| k IH]; intros Hk Hout.
  - simpl. now rewrite Nat.sub_0_r.
  - rewrite seq_S, for_each_app, IH by (auto with arith). simpl.
    rewrite getitem_nonneg by lia. rewrite Nat2Z.id. simpl.
    specialize (Hout k (Nat.lt_succ_diag_r k)).
    unfold out_sample in Hout. simpl in Hout. rewrite Hout. simpl.
    unfold setitem.
    assert (Hlen : length (map out (seq 0 k)) = k)
      by now rewrite length_map, length_seq.
    destruct (Nat.ltb_spec k
                (length (map out (seq 0 k) ++ repeat zero (length x - k))))
      as [_ | Hge].
    + simpl. f_equal. f_equal.
      replace (length x - k)%nat with (S (length x - S k)) by lia.
      simpl.
      pose proof (list_set_app (map out (seq 0 k))
                    (repeat zero (length x - S k)) zero (out k)) as Hset.
      rewrite Hlen in Hset. rewrite Hset.
      rewrite map_app, <- app_assoc. reflexivity.
    + rewrite length_app, Hlen, repeat_length in Hge. lia.
Qed.

End Loop.

(** ** Tap positions for a finite modulation frequency *)

Section FiniteTap.

Variables DELAY WIDTH : Z.
Variable m : R.

Lemma TAP_finite (n : nat) :
  TAP DELAY WIDTH (Fin m) n = Fin (tap_real DELAY WIDTH m n).
Proof. reflexivity. Qed.

Lemma tap_index_finite (n : nat) :
  tap_index DELAY WIDTH (Fin m) n = Rfloor (tap_real DELAY WIDTH m n).
Proof. reflexivity. Qed.

Lemma tap_frac_finite (n : nat) :
  tap_frac DELAY WIDTH (Fin m) n =
  Fin (tap_real DELAY WIDTH m n - IZR (Rfloor (tap_real DELAY WIDTH m n))).
Proof. reflexivity. Qed.

Hypothesis WIDTH_nonneg : (0 <= WIDTH)%Z.

Lemma tap_real_bounds (n : nat) :
  IZR (DELAY - WIDTH) <= tap_real DELAY WIDTH m n <= IZR (DELAY + WIDTH).
Proof.
  unfold tap_real. rewrite minus_IZR, plus_IZR.
  pose proof (SIN_bound (m * 2 * PI * IZR (Z.of_nat n))) as [Hlo Hhi].
  apply IZR_le in WIDTH_nonneg. split; nra.
Qed.

Lemma tap_index_bounds (n : nat) :
  (DELAY - WIDTH <= tap_index DELAY WIDTH (Fin m) n <= DELAY + WIDTH)%Z.
Proof.
  rewrite tap_index_finite. destruct (tap_real_bounds n) as [Hlo Hhi].
  split; [now apply Rfloor_lower | now apply Rfloor_upper].
Qed.

Lemma tap_frac_bounds (n : nat) :
  let tap := tap_real DELAY WIDTH m n in
  0 <= tap - IZR (Rfloor tap) < 1.
Proof.
  intros tap. destruct (Rfloor_spec tap). lra.
Qed.

End FiniteTap.

(** ** Processing succeeds on a finite configuration *)

Lemma interpolate_ok (Delayline : list num) (i : Z) (frac : num) :
  (- Z.of_nat (length Delayline) <= i - 1)%Z ->
  (i < Z.of_nat (length Delayline))%Z ->
  exists a b,
    getitem Delayline i = Ok a /\ getitem Delayline (i - 1) = Ok b /\
    interpolate Delayline i frac =
    Ok (nadd (nmul a frac) (nmul b (nsub (of_int 1) frac))).
Proof.
  intros Hlo Hhi.
  destruct (getitem_in_bounds Delayline i) as [a Ha]; [lia |].
  destruct (getitem_in_bounds Delayline (i - 1)) as [b Hb]; [lia |].
  exists a, b. unfold interpolate. rewrite Ha, Hb. auto.
Qed.

Lemma out_sample_finite (x : list num) (DELAY WIDTH : Z) (m : R) (n : nat) :
  (0 <= WIDTH <= DELAY)%Z ->
  let L := (2 + DELAY + WIDTH * 2)%Z in
  out_sample x DELAY WIDTH (Fin m) L n =
  Ok (out_of x DELAY WIDTH (Fin m) L n).
Proof.
  intros HW L. unfold out_of.
  pose proof (tap_index_bounds DELAY WIDTH m (proj1 HW) n) as Hi.
  destruct (interpolate_ok (delayline_after x L (S n))
              (tap_index DELAY WIDTH (Fin m) n)
              (tap_frac DELAY WIDTH (Fin m) n)) as (a & b & _ & _ & Hv).
  - rewrite length_delayline_after by (unfold L; lia). unfold L. lia.
  - rewrite length_delayline_after by (unfold L; lia). unfold L. lia.
  - unfold out_sample. now rewrite Hv.
Qed.

Lemma vibrato_body_finite (x : list num) (sr mf : R) (DELAY WIDTH : Z) :
  sr <> 0 -> (0 <= WIDTH <= DELAY)%Z ->
  let L := (2 + DELAY + WIDTH * 2)%Z in
  vibrato_body x (Fin sr) (Fin mf) DELAY WIDTH =
  Ok (map (out_of x DELAY WIDTH (Fin (mf / sr)) L) (range (length x - 1))
      ++ repeat zero (length x - (length x - 1))).
Proof.
  intros Hsr HW L. unfold vibrato_body.
  destruct (Z.gtb_spec WIDTH DELAY) as [Hgt | _]; [lia |].
  unfold ndiv. destruct (Req_dec_T sr 0) as [E | _]; [contradiction |].
  cbn [bind]. fold L. unfold np_zeros.
  destruct (Z.ltb_spec L 0) as [Hneg | _]; [unfold L in Hneg; lia |].
  cbn [bind].
  rewrite (for_each_loop_body x DELAY WIDTH (Fin (mf / sr)) L
             (out_of x DELAY WIDTH (Fin (mf / sr)) L)).
  - reflexivity.
  - lia.
  - intros n _. now apply out_sample_finite.
Qed.

Lemma vibrato_finite (x : list num) (sr mf w : R) :
  sr <> 0 -> (0 <= width_samples w sr)%Z ->
  vibrato x (Fin sr) (Fin mf) (Fin w) = Ok (vibrato_out sr mf w x).
Proof.
  intros Hsr HW. unfold vibrato, derive_DELAY, derive_WIDTH.
  cbn [nmul py_round bind].
  fold (width_samples w sr).
  apply vibrato_body_finite; [assumption | lia].
Qed.

(** ** Contents of the delay line *)

Lemma nth_delayline_after (x : list num) (L : Z) (k j : nat) :
  (1 <= L)%Z ->
  nth j (delayline_after x L k) zero =
  if ((j <? k) && (j <? Z.to_nat L))%nat then nth (k - 1 - j) x zero else zero.
Proof.
  intros HL. revert j. induction k as [| k IH]; intros j.
  - cbn [delayline_after]. rewrite nth_repeat. reflexivity.
  - cbn [delayline_after]. unfold push, slice_to.
    destruct (Z.ltb_spec (L - 1) 0) as [Hneg | _]; [lia |].
    destruct j as [| j]; cbn [nth].
    + destruct (Nat.ltb_spec 0 (Z.to_nat L)) as [_ | H0]; [| lia].
      replace (S k - 1 - 0)%nat with k by lia.
      change (0 <? S k)%nat with true. reflexivity.
    + rewrite nth_firstn, IH.
      replace (S k - 1 - S j)%nat with (k - 1 - j)%nat by lia.
      destruct (Nat.ltb_spec j (Z.to_nat (L - 1)));
        destruct (Nat.ltb_spec j k);
        destruct (Nat.ltb_spec j (Z.to_nat L));
        destruct (Nat.ltb_spec (S j) (S k));
        destruct (Nat.ltb_spec (S j) (Z.to_nat L));
        cbn [andb]; try reflexivity; lia.
Qed.

Lemma nth_map_range (f : nat -> num) (k n : nat) :
  (n < k)%nat -> nth n (map f (range k)) zero = f n.
Proof.
  intros H. unfold range.
  rewrite (nth_indep _ zero (f 0%nat)) by now rewrite length_map, length_seq.
  rewrite map_nth, seq_nth by assumption. reflexivity.
Qed.

(** ** C1: the interpolation formula *)

(** C1.  On a finite configuration (non-zero sample rate, non-negative sample
    count [W = round(Width * SR)]) processing returns an output [y], and for
    every [n] in [[0, len(x) - 1)]
    [y[n] = D[i] * frac + D[i - 1] * (1 - frac)], where
    [tap = DELAY + WIDTH * sin(2 * pi * (Modfreq / SR) * n)], [i = floor(tap)],
    [frac = tap - i], and [D] is the delay line after [x[n]] was pushed to
    index 0; both reads are the array reads of the source. *)
Theorem vibrato_output_interpolates (x : list num) (sr mf w : R) (n : nat) :
  sr <> 0 -> (0 <= width_samples w sr)%Z -> (n < length x - 1)%nat ->
  let DELAY := width_samples w sr in
  let WIDTH := width_samples w sr in
  let L := (2 + DELAY + WIDTH * 2)%Z in
  let tap :=
    IZR DELAY + IZR WIDTH * sin (2 * PI * (mf / sr) * IZR (Z.of_nat n)) in
  let i := Rfloor tap in
  let frac := Fin (tap - IZR i) in
  let D := push L (nth n x zero) (delayline_after x L n) in
  exists y a b,
    vibrato x (Fin sr) (Fin mf) (Fin w) = Ok y /\
    getitem D 0 = Ok (nth n x zero) /\
    getitem D i = Ok a /\
    getitem D (i - 1) = Ok b /\
    nth n y zero = nadd (nmul a frac) (nmul b (nsub (of_int 1) frac)).
Proof.
  intros Hsr HW Hn DELAY WIDTH L tap i frac D.
  assert (Htap : tap = tap_real DELAY WIDTH (mf / sr) n).
  { unfold tap, tap_real. do 3 f_equal. ring. }
  assert (HD : D = delayline_after x L (S n)) by reflexivity.
  assert (HlenD : length D = Z.to_nat L).
  { rewrite HD. apply length_delayline_after. unfold L, WIDTH, DELAY. lia. }
  pose proof (tap_index_bounds DELAY WIDTH (mf / sr) HW n) as Hi.
  rewrite tap_index_finite, <- Htap in Hi. fold i in Hi.
  destruct (interpolate_ok D i frac) as (a & b & Ha & Hb & Hv).
  { rewrite HlenD. unfold L, WIDTH, DELAY in *. lia. }
  { rewrite HlenD. unfold L, WIDTH, DELAY in *. lia. }
  assert (Hout : out_of x DELAY WIDTH (Fin (mf / sr)) L n =
                 nadd (nmul a frac) (nmul b (nsub (of_int 1) frac))).
  { unfold out_of, out_sample. rewrite <- HD.
    rewrite tap_index_finite, tap_frac_finite, <- Htap. fold i frac.
    now rewrite Hv. }
  eexists. exists a, b. split; [now apply vibrato_finite |].
  split; [reflexivity |]. split; [exact Ha |]. split; [exact Hb |].
  unfold vibrato_out.
  rewrite app_nth1 by (unfold range; now rewrite length_map, length_seq).
  rewrite nth_map_range by assumption. exact Hout.
Qed.

Lemma vibrato_output_interpolates_witness :
  exists y a b frac,
    vibrato (map Fin ramp) (Fin 10) (Fin 5) (Fin (2 / 10)) = Ok y /\
    nth 3 y zero = nadd (nmul a frac) (nmul b (nsub (of_int 1) frac)).
Proof.
  assert (H10 : 10 <> 0) by lra.
  assert (HW : (0 <= width_samples (2 / 10) 10)%Z).
  { unfold width_samples. replace (2 / 10 * 10) with (IZR 2) by lra.
    rewrite round_half_even_IZR. lia. }
  assert (Hn : (3 < length (map Fin ramp) - 1)%nat) by (simpl; lia).
  destruct (vibrato_output_interpolates (map Fin ramp) 10 5 (2 / 10) 3
              H10 HW Hn) as (y & a & b & Hy & _ & _ & _ & Hnth).
  exists y, a, b. eexists. split; [exact Hy | exact Hnth].
Defined.

Lemma nth_delayline_after_finite (xs : list R) (L : Z) (k j : nat) :
  (1 <= L)%Z ->
  nth j (delayline_after (map Fin xs) L k) zero =
  Fin (if ((j <? k) && (j <? Z.to_nat L))%nat then nth (k - 1 - j) xs 0
       else 0).
Proof.
  intros HL. rewrite nth_delayline_after by assumption.
  destruct ((j <? k) && (j <? Z.to_nat L))%nat; [| reflexivity].
  change zero with (Fin 0). apply map_nth.
Qed.

(** ** Integer tap positions *)

Section IntegerTap.

Variable xs : list R.
Variables DELAY WIDTH L : Z.
Variable m : R.
Variable n : nat.
Variable t : Z.

Hypothesis tap_is_t : tap_real DELAY WIDTH m n = IZR t.

Let D := delayline_after (map Fin xs) L (S n).

(** A tap on the integer [t >= 1]: [frac = 0], the whole weight is on
    [Delayline[t - 1]], the sample [t - 1] places back. *)
Lemma out_of_integer_tap :
  (1 <= t < L)%Z ->
  out_of (map Fin xs) DELAY WIDTH (Fin m) L n =
  Fin (if (Z.to_nat (t - 1) <=? n)%nat
       then nth (n - Z.to_nat (t - 1)) xs 0 else 0).
Proof.
  intros Ht. unfold out_of, out_sample, interpolate.
  rewrite tap_index_finite, tap_frac_finite, tap_is_t, Rfloor_IZR.
  fold D.
  assert (HL : length D = Z.to_nat L)
    by (apply length_delayline_after; lia).
  rewrite !getitem_nonneg by (rewrite HL; lia).
  unfold D. rewrite !nth_delayline_after_finite by lia.
  cbn [bind nadd nmul nsub nopp of_int]. f_equal.
  replace (n - Z.to_nat (t - 1))%nat with (S n - 1 - Z.to_nat (t - 1))%nat
    by lia.
  destruct (Nat.ltb_spec (Z.to_nat (t - 1)) (S n));
    destruct (Nat.ltb_spec (Z.to_nat (t - 1)) (Z.to_nat L));
    destruct (Nat.leb_spec (Z.to_nat (t - 1)) n);
    cbn [andb]; try lia; ring.
Qed.

(** A tap on [0]: the second read is [Delayline[-1]], the last slot of
    the line, which holds the sample [L - 1] places back. *)
Lemma out_of_tap_zero :
  t = 0%Z -> (1 <= L)%Z ->
  getitem D (tap_index DELAY WIDTH (Fin m) n - 1) =
    Ok (nth (Z.to_nat (L - 1)) D zero) /\
  out_of (map Fin xs) DELAY WIDTH (Fin m) L n =
  Fin (if (Z.to_nat (L - 1) <=? n)%nat
       then nth (n - Z.to_nat (L - 1)) xs 0 else 0).
Proof.
  intros Ht HL1. unfold out_of, out_sample, interpolate.
  rewrite tap_index_finite, tap_frac_finite, tap_is_t, Rfloor_IZR.
  subst t. fold D.
  assert (HL : length D = Z.to_nat L)
    by (apply length_delayline_after; lia).
  rewrite (getitem_nonneg D 0) by (rewrite HL; lia).
  rewrite (getitem_neg D (0 - 1)) by (rewrite HL; lia).
  rewrite HL.
  replace (0 - 1 + Z.of_nat (Z.to_nat L))%Z with (L - 1)%Z by lia.
  split; [reflexivity |].
  unfold D. rewrite !nth_delayline_after_finite by lia.
  cbn [bind nadd nmul nsub nopp of_int]. f_equal.
  replace (n - Z.to_nat (L - 1))%nat with (S n - 1 - Z.to_nat (L - 1))%nat
    by lia.
  destruct (Nat.ltb_spec (Z.to_nat (L - 1)) (S n));
    destruct (Nat.ltb_spec (Z.to_nat (L - 1)) (Z.to_nat L));
    destruct (Nat.leb_spec (Z.to_nat (L - 1)) n);
    cbn [andb]; try lia; ring.
Qed.

End IntegerTap.

(** ** Zero modulation frequency: a fixed delay *)

Lemma tap_real_zero_modulation (DELAY WIDTH : Z) (m : R) (n : nat) :
  m = 0 -> tap_real DELAY WIDTH m n = IZR DELAY.
Proof.
  intros ->. unfold tap_real.
  replace (0 * 2 * PI * IZR (Z.of_nat n)) with 0 by ring.
  rewrite sin_0. ring.
Qed.

(** With [Modfreq = 0] the tap stays at [DELAY]; the weight [frac = 0] falls
    on [Delayline[DELAY]] and the weight [1] on [Delayline[DELAY - 1]], so
    iteration [n] stores the sample [DELAY - 1] places back. *)
Lemma out_of_zero_modulation (xs : list R) (W : Z) (m : R) (n : nat) :
  m = 0 -> (1 <= W)%Z ->
  out_of (map Fin xs) W W (Fin m) (2 + W + W * 2) n =
  Fin (if (Z.to_nat (W - 1) <=? n)%nat
       then nth (n - Z.to_nat (W - 1)) xs 0 else 0).
Proof.
  intros Hm HW. apply (out_of_integer_tap xs W W _ m n W); [| lia].
  now apply tap_real_zero_modulation.
Qed.

(** X11.  With modulation frequency 0 and a sample count
    [W = round(Width * SAMPLERATE) >= 1], the output is the input delayed by
    [W - 1] samples: for [n < len(x) - 1], [y[n] = x[n - (W - 1)]], and 0
    while [n < W - 1]. *)
Lemma vibrato_zero_modulation (xs : list R) (sr w : R) (n : nat) :
  sr <> 0 -> (1 <= width_samples w sr)%Z -> (n < length xs - 1)%nat ->
  let W := width_samples w sr in
  exists y,
    vibrato (map Fin xs) (Fin sr) (Fin 0) (Fin w) = Ok y /\
    nth n y zero =
    Fin (if (Z.to_nat (W - 1) <=? n)%nat
         then nth (n - Z.to_nat (W - 1)) xs 0 else 0).
Proof.
  intros Hsr HW Hn W. eexists. split.
  - apply vibrato_finite; [assumption | lia].
  - unfold vibrato_out. rewrite length_map.
    rewrite app_nth1 by (unfold range; now rewrite length_map, length_seq).
    rewrite nth_map_range by assumption.
    apply out_of_zero_modulation; [field; assumption | assumption].
Qed.

Lemma width_samples_ramp : width_samples (2 / 10) 10 = 2%Z.
Proof.
  unfold width_samples. replace (2 / 10 * 10) with (IZR 2) by lra.
  apply round_half_even_IZR.
Qed.

(** C2.  On the ramp [[0, ..., 9]] with sample rate 10, modulation frequency
    0 and width 0.2 s (so [DELAY = WIDTH = 2]) the source returns
    [[0, 0, 1, 2, 3, 4, 5, 6, 7, 0]]: [output[n] = input[n - 1]] for
    [1 <= n < 9], a delay of [DELAY - 1 = 1] sample and not of [DELAY = 2]. *)
Theorem vibrato_ramp_delayed_by_one :
  let y := map Fin [0; 0; 1; 2; 3; 4; 5; 6; 7; 0] in
  vibrato (map Fin ramp) (Fin 10) (Fin 0) (Fin (2 / 10)) = Ok y /\
  nth 2 y zero = nth 1 (map Fin ramp) zero /\
  nth 2 y zero <> nth 0 (map Fin ramp) zero.
Proof.
  intros y. split; [| split].
  - rewrite vibrato_finite by (rewrite ?width_samples_ramp; lra || lia).
    unfold vibrato_out. rewrite width_samples_ramp. f_equal.
    assert (Hm : 0 / 10 = 0) by lra.
    change (length (map Fin ramp)) with 10%nat.
    cbn [Nat.sub range seq map app repeat].
    rewrite !(out_of_zero_modulation ramp 2 (0 / 10) _ Hm) by lia.
    reflexivity.
  - reflexivity.
  - cbn [y ramp map nth]. intros H. inversion H. lra.
Qed.

(** ** C3: reads of the delay line *)

(** C3, as stated, fails: an index in [[-L, 0)] is read from the end of the
    array; here index [-1] of a line of length 2 returns its last sample. *)
Lemma getitem_negative_index_returns :
  ~ (forall (Delayline : list num) (idx : Z),
       (idx < 0 \/ Z.of_nat (length Delayline) <= idx)%Z ->
       exists e, getitem Delayline idx = Raise e).
Proof.
  intros H. destruct (H [Fin 1; Fin 2] (-1)%Z) as [e He]; [lia |].
  discriminate He.
Qed.

(** C3, amended.  Reading a delay line of length [L] at [idx] fails with the
    index-out-of-range condition exactly when [idx < -L] or [idx >= L]; an
    index with [-L <= idx < 0] returns the sample at [L + idx], an index with
    [0 <= idx < L] the sample at [idx]. *)
Theorem getitem_raises_iff (Delayline : list num) (idx : Z) :
  let L := Z.of_nat (length Delayline) in
  ((exists e, getitem Delayline idx = Raise e) <->
   (idx < - L \/ L <= idx)%Z) /\
  ((idx < - L \/ L <= idx)%Z ->
   getitem Delayline idx = Raise (IndexError "index out of bounds")) /\
  ((- L <= idx < 0)%Z ->
   getitem Delayline idx = Ok (nth (Z.to_nat (L + idx)) Delayline zero)) /\
  ((0 <= idx < L)%Z ->
   getitem Delayline idx = Ok (nth (Z.to_nat idx) Delayline zero)).
Proof.
  intros L. split; [| split; [| split]].
  - split.
    + intros [e He].
      destruct (Z.lt_ge_cases idx (- L)) as [| Hlo]; [now left |].
      destruct (Z.lt_ge_cases idx L) as [Hhi |]; [| now right].
      destruct (getitem_in_bounds Delayline idx) as [v Hv]; [fold L; lia |].
      rewrite Hv in He. discriminate.
    + intros H. eexists. now apply getitem_out_of_bounds.
  - apply getitem_out_of_bounds.
  - intros H. rewrite Z.add_comm. now apply getitem_neg.
  - apply getitem_nonneg.
Qed.

(** ** What the loop preserves, on any configuration *)

Lemma nth_list_set_other (a : list num) (n j : nat) (v d : num) :
  j <> n -> nth j (list_set a n v) d = nth j a d.
Proof.
  revert n j. induction a as [| h t IH]; intros [| n] [| j] Hne; simpl;
    try reflexivity; try contradiction.
  apply IH. congruence.
Qed.

Lemma getitem_raises (a : list num) (idx : Z) (e : exn) :
  getitem a idx = Raise e -> e = IndexError "index out of bounds".
Proof.
  unfold getitem.
  destruct ((0 <=? _) && _)%Z; intros H; [discriminate | congruence].
Qed.

Lemma setitem_raises (a : list num) (n : nat) (v : num) (e : exn) :
  setitem a n v = Raise e -> e = IndexError "index out of bounds".
Proof.
  unfold setitem. destruct (n <? length a)%nat; intros H;
    [discriminate | congruence].
Qed.

Section LoopInvariants.

Variable x : list num.
Variables DELAY WIDTH : Z.
Variable MODFREQ : num.
Variable L : Z.

Let body := loop_body x DELAY WIDTH MODFREQ L.

Lemma loop_body_raises (n : nat) (st : list num * list num) (e : exn) :
  body n st = Raise e -> e = IndexError "index out of bounds".
Proof.
  unfold body, loop_body, interpolate. destruct st as [Delayline y].
  destruct (getitem x (Z.of_nat n)) as [xn |] eqn:Ex; cbn [bind];
    [| intros H; inversion H; subst; eauto using getitem_raises].
  destruct (getitem (push L xn Delayline) _) as [a |] eqn:Ea; cbn [bind];
    [| intros H; inversion H; subst; eauto using getitem_raises].
  destruct (getitem (push L xn Delayline) _) as [b |] eqn:Eb in |- *;
    cbn [bind];
    [| intros H; inversion H; subst; eauto using getitem_raises].
  destruct (setitem y n _) as [y' |] eqn:Ey; cbn [bind];
    [discriminate | intros H; inversion H; subst; eauto using setitem_raises].
Qed.

Lemma loop_body_ok (n : nat) (Delayline y Delayline' y' : list num) :
  body n (Delayline, y) = Ok (Delayline', y') ->
  length y' = length y /\
  forall j, j <> n -> nth j y' zero = nth j y zero.
Proof.
  unfold body, loop_body.
  destruct (getitem x (Z.of_nat n)) as [xn |]; cbn [bind]; [| discriminate].
  destruct (interpolate _ _ _) as [v |]; cbn [bind]; [| discriminate].
  unfold setitem. destruct (n <? length y)%nat; cbn [bind]; [| discriminate].
  intros H. inversion H; subst. split.
  - apply length_list_set.
  - intros j Hj. now apply nth_list_set_other.
Qed.

Lemma for_each_raises (ns : list nat) (st : list num * list num) (e : exn) :
  for_each body ns st = Raise e -> e = IndexError "index out of bounds".
Proof.
  revert st.
  induction ns as [| n ns IH]; intros st; cbn [for_each]; [discriminate |].
  destruct (body n st) as [st' |] eqn:E; cbn [bind].
  - apply IH.
  - intros H. inversion H; subst. eapply loop_body_raises; eauto.
Qed.

Lemma for_each_ok (ns : list nat) (Delayline y Delayline' y' : list num) :
  for_each body ns (Delayline, y) = Ok (Delayline', y') ->
  length y' = length y /\
  forall j, ~ In j ns -> nth j y' zero = nth j y zero.
Proof.
  revert Delayline y.
  induction ns as [| n ns IH]; intros Delayline y; cbn [for_each].
  - intros H. inversion H; subst. auto.
  - destruct (body n (Delayline, y)) as [[D1 y1] |] eqn:E; cbn [bind];
      [| discriminate].
    intros H. apply IH in H. destruct H as [Hlen Hnth].
    apply loop_body_ok in E. destruct E as [Hlen1 Hnth1]. split.
    + congruence.
    + intros j Hj. rewrite Hnth by (intros Hin; apply Hj; now right).
      apply Hnth1. intros ->. apply Hj. now left.
Qed.

End LoopInvariants.

(** Whatever the configuration, a result of [vibrato] is the zero-filled
    array in which only the indices of [range(LEN - 1)] were written. *)
Lemma vibrato_ok_inv (x : list num) (SR Modfreq Width : num) (y : list num) :
  vibrato x SR Modfreq Width = Ok y ->
  length y = length x /\
  forall j, (length x - 1 <= j)%nat -> nth j y zero = zero.
Proof.
  unfold vibrato.
  destruct (derive_DELAY SR Width) as [DELAY |]; cbn [bind]; [| discriminate].
  destruct (derive_WIDTH SR Width) as [WIDTH |]; cbn [bind]; [| discriminate].
  unfold vibrato_body. destruct (WIDTH >? DELAY)%Z; [discriminate |].
  destruct (ndiv Modfreq SR) as [MODFREQ |]; cbn [bind]; [| discriminate].
  destruct (np_zeros _) as [Delayline |]; cbn [bind]; [| discriminate].
  destruct (for_each _ _ _) as [[D' y'] |] eqn:E; cbn [bind snd];
    [| discriminate].
  intros H. inversion H; subst. apply for_each_ok in E.
  destruct E as [Hlen Hnth]. unfold np_zeros_like in *.
  rewrite repeat_length in Hlen. split; [assumption |].
  intros j Hj. rewrite Hnth.
  - apply nth_repeat.
  - unfold range. rewrite in_seq. lia.
Qed.

(** ** A modulation of a quarter of the sample rate *)

Lemma sin_quarter_turns (q r : nat) :
  (r < 4)%nat ->
  sin (1 / 4 * 2 * PI * IZR (Z.of_nat (r + 4 * q))) = quarter_sin r.
Proof.
  intros Hr. induction q as [| q IH].
  - replace (r + 4 * 0)%nat with r by lia.
    destruct r as [| [| [| [| r]]]]; [| | | | lia]; cbn [quarter_sin Z.of_nat].
    + replace (1 / 4 * 2 * PI * 0) with 0 by ring. apply sin_0.
    + replace (1 / 4 * 2 * PI * IZR (Z.pos (Pos.of_succ_nat 0)))
        with (PI / 2) by (cbn; field).
      apply sin_PI2.
    + replace (1 / 4 * 2 * PI * IZR (Z.pos (Pos.of_succ_nat 1)))
        with PI by (cbn; field).
      apply sin_PI.
    + replace (1 / 4 * 2 * PI * IZR (Z.pos (Pos.of_succ_nat 2)))
        with (3 * (PI / 2)) by (cbn; field).
      apply sin_3PI2.
  - replace (r + 4 * S q)%nat with ((r + 4 * q) + 4)%nat by lia.
    rewrite Nat2Z.inj_add, plus_IZR.
    replace (1 / 4 * 2 * PI * (IZR (Z.of_nat (r + 4 * q)) + IZR (Z.of_nat 4)))
      with (1 / 4 * 2 * PI * IZR (Z.of_nat (r + 4 * q)) + 2 * PI)
      by (cbn; field).
    rewrite sin_plus, sin_2PI, cos_2PI, IH. ring.
Qed.

Lemma tap_real_quarter (W : Z) (q r : nat) :
  (r < 4)%nat ->
  tap_real W W (1 / 4) (r + 4 * q) = IZR W + IZR W * quarter_sin r.
Proof.
  intros Hr. unfold tap_real. now rewrite sin_quarter_turns.
Qed.

(** ** C4: the tap indices *)

Lemma tap_real_quarter_2 (q r : nat) :
  (r < 4)%nat ->
  tap_real 2 2 (1 / 4) (r + 4 * q) = IZR (quarter_tap r).
Proof.
  intros Hr. rewrite tap_real_quarter by assumption.
  destruct r as [| [| [| [| r]]]]; [| | | | lia];
    cbn [quarter_sin quarter_tap]; lra.
Qed.

Lemma width_samples_half_second : width_samples (1 / 2) 4 = 2%Z.
Proof.
  unfold width_samples. replace (1 / 2 * 4) with (IZR 2) by lra.
  apply round_half_even_IZR.
Qed.

(** C4.  With sample rate 4, modulation frequency 1 and width 0.5 s
    ([DELAY = WIDTH = 2], [L = 8]) the tap of iterations 3 and 7 is
    [2 + 2 * sin(3 * pi / 2) = 0], so [i = 0] and the second read is at index
    [i - 1 = -1], outside [[0, L - 1]]; the read does not fail, it returns
    the last slot of the line, and [y[7]] is the sample [x[0]] pushed seven
    iterations before. *)
Theorem vibrato_second_read_at_minus_one :
  let x := map Fin count_up in
  let D := delayline_after x 8 8 in
  derive_DELAY (Fin 4) (Fin (1 / 2)) = Ok 2%Z /\
  derive_WIDTH (Fin 4) (Fin (1 / 2)) = Ok 2%Z /\
  ndiv (Fin 1) (Fin 4) = Ok (Fin (1 / 4)) /\
  tap_index 2 2 (Fin (1 / 4)) 7 = 0%Z /\
  (tap_index 2 2 (Fin (1 / 4)) 7 - 1 < 0)%Z /\
  getitem D (tap_index 2 2 (Fin (1 / 4)) 7 - 1) = Ok (nth 7 D zero) /\
  nth 7 D zero = nth 0 x zero /\
  vibrato x (Fin 4) (Fin 1) (Fin (1 / 2)) =
  Ok (map Fin [0; 0; 2; 0; 4; 3; 6; 1; 0]).
Proof.
  intros x D.
  assert (T0 : tap_real 2 2 (1 / 4) 0 = IZR 2)
    by (apply (tap_real_quarter_2 0 0); lia).
  assert (T1 : tap_real 2 2 (1 / 4) 1 = IZR 4)
    by (apply (tap_real_quarter_2 0 1); lia).
  assert (T2 : tap_real 2 2 (1 / 4) 2 = IZR 2)
    by (apply (tap_real_quarter_2 0 2); lia).
  assert (T3 : tap_real 2 2 (1 / 4) 3 = IZR 0)
    by (apply (tap_real_quarter_2 0 3); lia).
  assert (T4 : tap_real 2 2 (1 / 4) 4 = IZR 2)
    by (apply (tap_real_quarter_2 1 0); lia).
  assert (T5 : tap_real 2 2 (1 / 4) 5 = IZR 4)
    by (apply (tap_real_quarter_2 1 1); lia).
  assert (T6 : tap_real 2 2 (1 / 4) 6 = IZR 2)
    by (apply (tap_real_quarter_2 1 2); lia).
  assert (T7 : tap_real 2 2 (1 / 4) 7 = IZR 0)
    by (apply (tap_real_quarter_2 1 3); lia).
  assert (Hi : tap_index 2 2 (Fin (1 / 4)) 7 = 0%Z)
    by (rewrite tap_index_finite, T7; apply Rfloor_IZR).
  assert (Hw : py_round (nmul (Fin (1 / 2)) (Fin 4)) = Ok 2%Z).
  { cbn [nmul py_round]. f_equal. apply width_samples_half_second. }
  split; [exact Hw |]. split; [exact Hw |].
  split.
  { unfold ndiv. destruct (Req_dec_T 4 0) as [E | _]; [lra | reflexivity]. }
  split; [exact Hi |]. split; [rewrite Hi; lia |].
  split.
  { apply (out_of_tap_zero count_up 2 2 8 (1 / 4) 7 0 T7);
      [reflexivity | lia]. }
  split; [reflexivity |].
  unfold x. rewrite vibrato_finite
    by (rewrite ?width_samples_half_second; lra || lia).
  unfold vibrato_out. rewrite width_samples_half_second. f_equal.
  change (length (map Fin count_up)) with 9%nat.
  cbn [Nat.sub range seq map app repeat].
  change (2 + 2 + 2 * 2)%Z with 8%Z.
  rewrite (out_of_integer_tap count_up 2 2 8 (1 / 4) 0 2 T0) by lia.
  rewrite (out_of_integer_tap count_up 2 2 8 (1 / 4) 1 4 T1) by lia.
  rewrite (out_of_integer_tap count_up 2 2 8 (1 / 4) 2 2 T2) by lia.
  rewrite (proj2 (out_of_tap_zero count_up 2 2 8 (1 / 4) 3 0 T3
                    eq_refl ltac:(lia))).
  rewrite (out_of_integer_tap count_up 2 2 8 (1 / 4) 4 2 T4) by lia.
  rewrite (out_of_integer_tap count_up 2 2 8 (1 / 4) 5 4 T5) by lia.
  rewrite (out_of_integer_tap count_up 2 2 8 (1 / 4) 6 2 T6) by lia.
  rewrite (proj2 (out_of_tap_zero count_up 2 2 8 (1 / 4) 7 0 T7
                    eq_refl ltac:(lia))).
  reflexivity.
Qed.

(** ** C5: non-finite parameters *)

Lemma inf_of_sign_nonfinite (r : R) : is_finite (inf_of_sign r) = false.
Proof. unfold inf_of_sign. now destruct (Rlt_dec 0 r). Qed.

Lemma nmul_nonfinite_r (a b : num) :
  is_finite b = false -> is_finite (nmul a b) = false.
Proof.
  destruct b; [discriminate | | |]; intros _; destruct a; cbn [nmul];
    try reflexivity;
    destruct (Req_dec_T r 0); try reflexivity; apply inf_of_sign_nonfinite.
Qed.

Lemma py_round_nonfinite (a : num) :
  is_finite a = false ->
  py_round a = Raise (ValueError "cannot convert float NaN to integer") \/
  py_round a =
    Raise (OverflowError "cannot convert float infinity to integer").
Proof.
  destruct a; [discriminate | | |]; intros _; cbn [py_round]; auto.
Qed.

(** C5, as stated, fails: a modulation frequency that is not a number is
    not rejected; on the empty input processing returns the empty output. *)
Lemma vibrato_nan_modfreq_returns :
  ~ (forall (x : list num) (SR Modfreq Width : num),
       is_finite SR = false \/ is_finite Modfreq = false ->
       exists e, vibrato x SR Modfreq Width = Raise e).
Proof.
  intros H.
  destruct (H [] (Fin 10) NaN (Fin (2 / 10))) as [e He]; [now right |].
  unfold vibrato, derive_DELAY, derive_WIDTH in He.
  cbn [nmul py_round bind] in He.
  fold (width_samples (2 / 10) 10) in He.
  rewrite width_samples_ramp in He.
  unfold vibrato_body, ndiv in He.
  destruct (Req_dec_T 10 0) as [E | _]; [lra |].
  discriminate He.
Qed.

(** An input too short for the loop to run comes back zero-filled, whatever
    the modulation frequency. *)
Lemma vibrato_short_input (x : list num) (sr w : R) (Modfreq : num) :
  sr <> 0 -> (0 <= width_samples w sr)%Z -> (length x <= 1)%nat ->
  vibrato x (Fin sr) Modfreq (Fin w) = Ok (np_zeros_like x).
Proof.
  intros Hsr HW Hlen.
  unfold vibrato, derive_DELAY, derive_WIDTH. cbn [nmul py_round bind].
  fold (width_samples w sr). unfold vibrato_body.
  destruct (Z.gtb_spec (width_samples w sr) (width_samples w sr));
    [lia |].
  assert (Hdiv : exists M, ndiv Modfreq (Fin sr) = Ok M).
  { unfold ndiv. destruct (Req_dec_T sr 0); [contradiction |].
    destruct Modfreq; eauto. }
  destruct Hdiv as [M ->]. cbn [bind]. unfold np_zeros.
  destruct (Z.ltb_spec (2 + width_samples w sr + width_samples w sr * 2) 0);
    [lia |].
  cbn [bind].
  replace (length x - 1)%nat with 0%nat by lia. reflexivity.
Qed.

Lemma nmul_nonfinite_l (a b : num) :
  is_finite a = false -> is_finite (nmul a b) = false.
Proof.
  destruct a; [discriminate | | |]; intros _; destruct b; cbn [nmul];
    try reflexivity;
    destruct (Req_dec_T r 0); try reflexivity; apply inf_of_sign_nonfinite.
Qed.

Lemma ndiv_nonfinite (a : num) (s : R) :
  is_finite a = false -> s <> 0 ->
  exists M, ndiv a (Fin s) = Ok M /\ is_finite M = false.
Proof.
  intros Ha Hs. unfold ndiv. destruct (Req_dec_T s 0); [contradiction |].
  destruct a; [discriminate | | |]; eexists; split; try reflexivity;
    apply inf_of_sign_nonfinite.
Qed.

(** With a non-finite modulation frequency the tap is NaN in every
    iteration, and its conversion to an integer the least [int64]. *)
Lemma tap_index_nonfinite (DELAY WIDTH : Z) (M : num) (n : nat) :
  is_finite M = false -> tap_index DELAY WIDTH M n = INT64_MIN.
Proof.
  intros HM. unfold tap_index, TAP, MOD.
  assert (H : is_finite
                (nmul (nmul (nmul M (of_int 2)) np_pi) (of_int (Z.of_nat n)))
              = false) by (do 3 apply nmul_nonfinite_l; exact HM).
  destruct (nmul (nmul (nmul M (of_int 2)) np_pi) (of_int (Z.of_nat n)));
    [discriminate | | |]; reflexivity.
Qed.

(** An input of two samples or more with a non-finite modulation frequency:
    the first iteration reads the delay line at the least [int64], which is
    out of range. *)
Lemma vibrato_nonfinite_modfreq_raises (x : list num) (sr w : R)
  (Modfreq : num) :
  is_finite Modfreq = false ->
  sr <> 0 -> (0 <= width_samples w sr)%Z ->
  (2 + width_samples w sr + width_samples w sr * 2 < 2 ^ 63)%Z ->
  (2 <= length x)%nat ->
  vibrato x (Fin sr) Modfreq (Fin w) =
  Raise (IndexError "index out of bounds").
Proof.
  intros HM Hsr HW HL Hlen.
  unfold vibrato, derive_DELAY, derive_WIDTH. cbn [nmul py_round bind].
  fold (width_samples w sr). set (W := width_samples w sr) in *.
  unfold vibrato_body.
  destruct (Z.gtb_spec W W); [lia |].
  destruct (ndiv_nonfinite Modfreq sr HM Hsr) as [M [-> HMf]]. cbn [bind].
  set (L := (2 + W + W * 2)%Z) in *. unfold np_zeros.
  destruct (Z.ltb_spec L 0); [unfold L in *; lia |]. cbn [bind].
  destruct (length x) as [| [| k]] eqn:Ek; [lia | lia |].
  cbn [Nat.sub range seq for_each]. unfold loop_body at 1.
  rewrite getitem_nonneg by (rewrite Ek; lia). cbn [bind].
  unfold interpolate. rewrite tap_index_nonfinite by assumption.
  rewrite getitem_out_of_bounds; [reflexivity |].
  left. rewrite length_push by (rewrite ?repeat_length; unfold L; lia).
  unfold INT64_MIN. unfold L in *. lia.
Qed.

(** C5, amended.  A non-finite sample rate makes processing fail before any
    output, with the error [round] raises on [Width * SAMPLERATE]:
    [ValueError] when the product is NaN, [OverflowError] when it is an
    infinity.  A non-finite modulation frequency is not checked.  With a
    finite non-zero sample rate, a non-negative sample count and a delay
    line that fits the [int64] range, an input of at most one sample returns
    its zero-filled output without error, and an input of two samples or
    more fails in the first iteration with the index-out-of-range error of
    the read of the delay line, before any output is returned. *)
Theorem vibrato_nonfinite_parameters :
  (forall (x : list num) (SR Modfreq Width : num),
     is_finite SR = false ->
     (nmul Width SR = NaN /\
      vibrato x SR Modfreq Width =
        Raise (ValueError "cannot convert float NaN to integer")) \/
     ((nmul Width SR = PInf \/ nmul Width SR = NInf) /\
      vibrato x SR Modfreq Width =
        Raise (OverflowError "cannot convert float infinity to integer"))) /\
  (forall (x : list num) (sr w : R) (Modfreq : num),
     is_finite Modfreq = false ->
     sr <> 0 -> (0 <= width_samples w sr)%Z ->
     (2 + width_samples w sr + width_samples w sr * 2 < 2 ^ 63)%Z ->
     ((length x <= 1)%nat ->
      vibrato x (Fin sr) Modfreq (Fin w) = Ok (np_zeros_like x)) /\
     ((2 <= length x)%nat ->
      vibrato x (Fin sr) Modfreq (Fin w) =
        Raise (IndexError "index out of bounds"))).
Proof.
  split.
  - intros x SR Modfreq Width HSR. unfold vibrato, derive_DELAY.
    pose proof (nmul_nonfinite_r Width SR HSR) as Hp.
    destruct (nmul Width SR); [discriminate | | |]; cbn [py_round bind];
      auto.
  - intros x sr w Modfreq HM Hsr HW HL. split.
    + now apply vibrato_short_input.
    + now apply vibrato_nonfinite_modfreq_raises.
Qed.

Lemma vibrato_nonfinite_parameters_witness :
  ((nmul (Fin (2 / 10)) NaN = NaN /\
    vibrato [Fin 1; Fin 2] NaN (Fin 5) (Fin (2 / 10)) =
      Raise (ValueError "cannot convert float NaN to integer")) \/
   ((nmul (Fin (2 / 10)) NaN = PInf \/ nmul (Fin (2 / 10)) NaN = NInf) /\
    vibrato [Fin 1; Fin 2] NaN (Fin 5) (Fin (2 / 10)) =
      Raise (OverflowError "cannot convert float infinity to integer"))) /\
  vibrato [Fin 1] (Fin 10) PInf (Fin (2 / 10)) = Ok [zero] /\
  vibrato (map Fin ramp) (Fin 10) PInf (Fin (2 / 10)) =
    Raise (IndexError "index out of bounds").
Proof.
  assert (H10 : 10 <> 0) by lra.
  assert (HW : (0 <= width_samples (2 / 10) 10)%Z)
    by (rewrite width_samples_ramp; lia).
  assert (HL : (2 + width_samples (2 / 10) 10
                + width_samples (2 / 10) 10 * 2 < 2 ^ 63)%Z)
    by (rewrite width_samples_ramp; lia).
  split; [| split].
  - apply (proj1 vibrato_nonfinite_parameters). reflexivity.
  - apply (proj2 vibrato_nonfinite_parameters [Fin 1] 10 (2 / 10) PInf
             eq_refl H10 HW HL).
    cbn [length]. lia.
  - apply (proj2 vibrato_nonfinite_parameters (map Fin ramp) 10 (2 / 10) PInf
             eq_refl H10 HW HL).
    cbn [length map ramp]. lia.
Defined.

(** ** C6 and C7: the last slot and the length of the output *)

Lemma vibrato_ok_last (x : list num) (SR Modfreq Width : num)
  (y : list num) :
  x <> [] -> vibrato x SR Modfreq Width = Ok y ->
  length y = length x /\ nth_error y (length x - 1) = Some zero.
Proof.
  intros Hx Hy. apply vibrato_ok_inv in Hy. destruct Hy as [Hlen Hz].
  split; [exact Hlen |].
  assert (Hpos : (0 < length x)%nat)
    by (destruct x; [contradiction | cbn; lia]).
  rewrite (nth_error_nth' y zero) by lia.
  f_equal. apply Hz. lia.
Qed.

(** C6.  On a finite configuration processing of a non-empty input returns
    an output [y] of the length [LEN] of the input whose last slot
    [y[LEN - 1]] holds [0.0]; and every output returned for a non-empty
    input, on any configuration and whatever the samples are, has the length
    [LEN] and holds [0.0] in its slot [LEN - 1], the slot the loop over
    [range(LEN - 1)] never writes. *)
Theorem vibrato_last_slot_zero (x : list num) :
  x <> [] ->
  (forall sr mf w : R,
     sr <> 0 -> (0 <= width_samples w sr)%Z ->
     exists y,
       vibrato x (Fin sr) (Fin mf) (Fin w) = Ok y /\
       length y = length x /\
       nth_error y (length x - 1) = Some zero) /\
  (forall (SR Modfreq Width : num) (y : list num),
     vibrato x SR Modfreq Width = Ok y ->
     length y = length x /\
     nth_error y (length x - 1) = Some zero).
Proof.
  intros Hx. split.
  - intros sr mf w Hsr HW. exists (vibrato_out sr mf w x).
    assert (E : vibrato x (Fin sr) (Fin mf) (Fin w) =
                Ok (vibrato_out sr mf w x)) by now apply vibrato_finite.
    split; [exact E |]. now apply (vibrato_ok_last x _ _ _ _ Hx E).
  - intros SR Modfreq Width y Hy. now apply (vibrato_ok_last x _ _ _ _ Hx Hy).
Qed.

Lemma vibrato_last_slot_zero_witness :
  exists y,
    vibrato (map Fin ramp) (Fin 10) (Fin 5) (Fin (2 / 10)) = Ok y /\
    length y = 10%nat /\
    nth_error y 9 = Some zero.
Proof.
  assert (Hx : map Fin ramp <> []) by discriminate.
  apply (proj1 (vibrato_last_slot_zero (map Fin ramp) Hx) 10 5 (2 / 10)).
  - lra.
  - rewrite width_samples_ramp. lia.
Defined.

(** C7.  On a finite configuration processing returns an output of the
    length of the input, and the empty output for the empty input; on any
    configuration a returned output has the length of the input. *)
Theorem vibrato_length (x : list num) (sr mf w : R) :
  sr <> 0 -> (0 <= width_samples w sr)%Z ->
  (exists y, vibrato x (Fin sr) (Fin mf) (Fin w) = Ok y /\
             length y = length x) /\
  vibrato [] (Fin sr) (Fin mf) (Fin w) = Ok [] /\
  (forall (SR Modfreq Width : num) (y : list num),
     vibrato x SR Modfreq Width = Ok y -> length y = length x).
Proof.
  intros Hsr HW. split; [| split].
  - destruct (vibrato x (Fin sr) (Fin mf) (Fin w)) as [y |] eqn:E.
    + exists y. split; [reflexivity |]. now apply vibrato_ok_inv in E.
    + rewrite vibrato_finite in E by assumption. discriminate.
  - now rewrite vibrato_finite.
  - intros SR Modfreq Width y Hy. now apply vibrato_ok_inv in Hy.
Qed.

Lemma vibrato_length_witness :
  (exists y, vibrato (map Fin ramp) (Fin 10) (Fin 5) (Fin (2 / 10)) = Ok y /\
             length y = 10%nat) /\
  vibrato [] (Fin 10) (Fin 5) (Fin (2 / 10)) = Ok [].
Proof.
  assert (H10 : 10 <> 0) by lra.
  assert (HW : (0 <= width_samples (2 / 10) 10)%Z)
    by (rewrite width_samples_ramp; lia).
  destruct (vibrato_length (map Fin ramp) 10 5 (2 / 10) H10 HW)
    as [Hy [He _]].
  split; [exact Hy | exact He].
Defined.

(** ** C8 and C10: the width guard *)

(** C8.  When the modulation width in samples exceeds the basic delay in
    samples, the part of [vibrato] that follows their derivation raises the
    configuration error at once: no sample is processed, nothing is
    returned. *)
Theorem vibrato_body_width_guard (x : list num) (SR Modfreq : num)
  (DELAY WIDTH : Z) :
  (WIDTH > DELAY)%Z ->
  vibrato_body x SR Modfreq DELAY WIDTH =
  Raise (ValueError "Width greater than basic delay !!!").
Proof.
  intros H. unfold vibrato_body.
  destruct (Z.gtb_spec WIDTH DELAY); [reflexivity | lia].
Qed.

Lemma vibrato_body_width_guard_witness :
  vibrato_body [Fin 1; Fin 2] (Fin 10) (Fin 5) 2 3 =
  Raise (ValueError "Width greater than basic delay !!!").
Proof.
  apply (vibrato_body_width_guard [Fin 1; Fin 2] (Fin 10) (Fin 5) 2 3).
  lia.
Defined.

Lemma py_round_raises (a : num) (e : exn) :
  py_round a = Raise e ->
  e <> ValueError "Width greater than basic delay !!!".
Proof.
  destruct a; cbn [py_round]; intros H; inversion H; subst; discriminate.
Qed.

Lemma ndiv_raises (a b : num) (e : exn) :
  ndiv a b = Raise e -> e = ZeroDivisionError "float division by zero".
Proof.
  unfold ndiv. destruct b; [destruct (Req_dec_T r 0) | | |];
    destruct a; intros H; inversion H; reflexivity.
Qed.

(** C10.  The basic delay and the modulation width in samples are the same
    rounding of the same product, so they are equal, and no input makes
    [vibrato] raise the error of the width guard. *)
Theorem vibrato_width_guard_unreachable (x : list num)
  (SR Modfreq Width : num) :
  derive_DELAY SR Width = derive_WIDTH SR Width /\
  (forall DELAY WIDTH : Z,
     derive_DELAY SR Width = Ok DELAY -> derive_WIDTH SR Width = Ok WIDTH ->
     (WIDTH >? DELAY)%Z = false) /\
  vibrato x SR Modfreq Width <>
  Raise (ValueError "Width greater than basic delay !!!").
Proof.
  split; [reflexivity |]. split.
  - unfold derive_DELAY, derive_WIDTH. intros DELAY WIDTH HD HW.
    rewrite HD in HW. inversion HW; subst.
    destruct (Z.gtb_spec WIDTH WIDTH); [lia | reflexivity].
  - unfold vibrato, derive_DELAY, derive_WIDTH.
    destruct (py_round (nmul Width SR)) as [W | e] eqn:ER; cbn [bind].
    + unfold vibrato_body.
      destruct (Z.gtb_spec W W) as [Hgt | _]; [lia |].
      destruct (ndiv Modfreq SR) as [M | e] eqn:ED; cbn [bind].
      * unfold np_zeros. destruct (_ <? 0)%Z; cbn [bind]; [discriminate |].
        destruct (for_each _ _ _) as [st | e] eqn:EL; cbn [bind];
          [discriminate |].
        apply for_each_raises in EL. subst e. discriminate.
      * apply ndiv_raises in ED. subst e. discriminate.
    + intros H. inversion H; subst. now apply py_round_raises in ER.
Qed.

(** ** C9: channel dispatch *)

Lemma map_result_ok (f : list num -> result (list num))
  (g : list num -> list num) (cols : list (list num)) :
  (forall c, In c cols -> f c = Ok (g c)) ->
  map_result f cols = Ok (map g cols).
Proof.
  induction cols as [| c cols IH]; intros H; cbn [map_result map].
  - reflexivity.
  - rewrite (H c) by now left. cbn [bind].
    rewrite IH by (intros c' Hc'; apply H; now right). reflexivity.
Qed.

Lemma map_result_inv (f : list num -> result (list num))
  (cols outs : list (list num)) :
  map_result f cols = Ok outs -> Forall2 (fun c o => f c = Ok o) cols outs.
Proof.
  revert outs. induction cols as [| c cols IH]; intros outs; cbn [map_result].
  - intros H. inversion H. constructor.
  - destruct (f c) as [o |] eqn:E; cbn [bind]; [| discriminate].
    destruct (map_result f cols) as [os |]; cbn [bind]; [| discriminate].
    intros H. inversion H; subst. constructor; auto.
Qed.

(** C9.  For a buffer of one or more channels, on a finite configuration the
    dispatch returns a buffer with as many channels, each one the result of
    [vibrato] on that input channel alone and of its length; and on any
    configuration a returned buffer is made of the results of [vibrato] on
    the channels, one by one. *)
Theorem process_audio_file_channels (channels : list (list num)) :
  channels <> [] ->
  (forall sr mf w : R,
     sr <> 0 -> (0 <= width_samples w sr)%Z ->
     exists outs,
       process_audio_file (Array2 channels) (Fin sr) (Fin mf) (Fin w) =
         Ok (Array2 outs) /\
       length outs = length channels /\
       Forall2 (fun c o => vibrato c (Fin sr) (Fin mf) (Fin w) = Ok o /\
                           length o = length c) channels outs) /\
  (forall (SR Modfreq Width : num) (out : ndarray),
     process_audio_file (Array2 channels) SR Modfreq Width = Ok out ->
     exists outs,
       out = Array2 outs /\
       Forall2 (fun c o => vibrato c SR Modfreq Width = Ok o /\
                           length o = length c) channels outs).
Proof.
  intros Hne. split.
  - intros sr mf w Hsr HW. exists (map (vibrato_out sr mf w) channels).
    split; [| split].
    + cbn [process_audio_file]. unfold apply_along_axis0.
      destruct channels as [| c cs]; [contradiction |].
      rewrite (map_result_ok _ (vibrato_out sr mf w)); [reflexivity |].
      intros c' _. now apply vibrato_finite.
    + apply length_map.
    + clear Hne. induction channels as [| c cs IH]; cbn [map]; constructor.
      * assert (E : vibrato c (Fin sr) (Fin mf) (Fin w) =
                    Ok (vibrato_out sr mf w c)) by now apply vibrato_finite.
        split; [exact E |]. now apply vibrato_ok_inv in E.
      * exact IH.
  - intros SR Modfreq Width out. cbn [process_audio_file].
    unfold apply_along_axis0. destruct channels as [| c cs]; [contradiction |].
    destruct (map_result _ (c :: cs)) as [outs |] eqn:E; cbn [bind];
      [| discriminate].
    intros H. inversion H; subst. exists outs. split; [reflexivity |].
    apply map_result_inv in E.
    eapply Forall2_impl; [| exact E].
    intros a b Hab. split; [exact Hab |]. now apply vibrato_ok_inv in Hab.
Qed.

Lemma process_audio_file_channels_witness :
  let silence := [zero; zero; zero] in
  let impulse := [Fin 1; zero; zero] in
  exists outs,
    process_audio_file (Array2 [silence; impulse])
      (Fin 10) (Fin 5) (Fin (2 / 10)) = Ok (Array2 outs) /\
    length outs = 2%nat /\
    Forall2 (fun c o => vibrato c (Fin 10) (Fin 5) (Fin (2 / 10)) = Ok o /\
                        length o = length c) [silence; impulse] outs.
Proof.
  intros silence impulse.
  assert (Hne : [silence; impulse] <> []) by discriminate.
  apply (proj1 (process_audio_file_channels [silence; impulse] Hne)).
  - lra.
  - rewrite width_samples_ramp. lia.
Defined.

(** * Further properties of the source *)

(** ** The output on finite samples, as real numbers *)

Lemma getitem_delayline_finite (xs : list R) (L : Z) (k : nat) (idx : Z) :
  (1 <= L)%Z -> (- L <= idx < L)%Z ->
  getitem (delayline_after (map Fin xs) L k) idx =
  Ok (Fin (dl_real xs L k (wrap_index L idx))).
Proof.
  intros HL Hidx.
  assert (Hlen : Z.of_nat (length (delayline_after (map Fin xs) L k)) = L)
    by (rewrite length_delayline_after by assumption; lia).
  unfold wrap_index. destruct (Z.ltb_spec idx 0) as [Hneg | Hpos].
  - rewrite getitem_neg by lia. rewrite Hlen.
    now rewrite nth_delayline_after_finite.
  - rewrite getitem_nonneg by lia. now rewrite nth_delayline_after_finite.
Qed.

Lemma out_of_real (xs : list R) (DELAY WIDTH : Z) (m : R) (n : nat) :
  (0 <= WIDTH <= DELAY)%Z ->
  let L := (2 + DELAY + WIDTH * 2)%Z in
  out_of (map Fin xs) DELAY WIDTH (Fin m) L n =
  Fin (out_real xs DELAY WIDTH m L n).
Proof.
  intros HW L. unfold out_of, out_sample, interpolate.
  pose proof (tap_index_bounds DELAY WIDTH m (proj1 HW) n) as Hi.
  rewrite tap_index_finite in *. rewrite tap_frac_finite.
  rewrite !getitem_delayline_finite by (unfold L; lia).
  reflexivity.
Qed.

Lemma vibrato_out_real (xs : list R) (sr mf w : R) :
  (0 <= width_samples w sr)%Z ->
  vibrato_out sr mf w (map Fin xs) = map Fin (vibrato_real sr mf w xs).
Proof.
  intros HW. unfold vibrato_out, vibrato_real.
  rewrite map_app, map_map, length_map. f_equal.
  - apply map_ext. intros n. apply out_of_real. lia.
  - generalize (length xs - (length xs - 1))%nat. intros k.
    induction k as [| k IH]; cbn [repeat map]; [reflexivity | now rewrite IH].
Qed.

Lemma vibrato_of_reals (xs : list R) (sr mf w : R) :
  sr <> 0 -> (0 <= width_samples w sr)%Z ->
  vibrato (map Fin xs) (Fin sr) (Fin mf) (Fin w) =
  Ok (map Fin (vibrato_real sr mf w xs)).
Proof.
  intros Hsr HW. rewrite vibrato_finite by assumption.
  now rewrite vibrato_out_real.
Qed.

Lemma length_vibrato_real (xs : list R) (sr mf w : R) :
  length (vibrato_real sr mf w xs) = length xs.
Proof.
  unfold vibrato_real, range.
  rewrite length_app, length_map, length_seq, repeat_length. lia.
Qed.

(** ** Silence *)

Lemma nth_in_range (lo hi : R) (xs : list R) (j : nat) :
  lo <= 0 <= hi -> Forall (fun v => lo <= v <= hi) xs ->
  lo <= nth j xs 0 <= hi.
Proof.
  intros H0 Hxs. revert j. induction Hxs as [| a xs Ha _ IH]; intros [| j];
    cbn [nth]; auto.
Qed.

Lemma dl_real_in_range (lo hi : R) (xs : list R) (L : Z) (k j : nat) :
  lo <= 0 <= hi -> Forall (fun v => lo <= v <= hi) xs ->
  lo <= dl_real xs L k j <= hi.
Proof.
  intros H0 Hxs. unfold dl_real.
  destruct ((j <? k) && (j <? Z.to_nat L))%nat; [| assumption].
  now apply nth_in_range.
Qed.

Lemma out_real_in_range (lo hi : R) (xs : list R) (DELAY WIDTH L : Z)
  (m : R) (n : nat) :
  lo <= 0 <= hi -> Forall (fun v => lo <= v <= hi) xs ->
  lo <= out_real xs DELAY WIDTH m L n <= hi.
Proof.
  intros H0 Hxs. unfold out_real.
  pose proof (tap_frac_bounds DELAY WIDTH m n) as Hf. cbv zeta in Hf.
  set (f := tap_real DELAY WIDTH m n - IZR (Rfloor (tap_real DELAY WIDTH m n)))
    in *.
  pose proof (dl_real_in_range lo hi xs L (S n)
                (wrap_index L (Rfloor (tap_real DELAY WIDTH m n))) H0 Hxs)
    as Ha.
  pose proof (dl_real_in_range lo hi xs L (S n)
                (wrap_index L (Rfloor (tap_real DELAY WIDTH m n) - 1)) H0 Hxs)
    as Hb.
  split; nra.
Qed.

Lemma all_zero_is_repeat (ys : list R) :
  Forall (fun v => 0 <= v <= 0) ys -> ys = repeat 0 (length ys).
Proof.
  induction 1 as [| a ys Ha _ IH]; cbn [length repeat]; [reflexivity |].
  rewrite <- IH. f_equal. lra.
Qed.

Lemma map_Fin_zeros (k : nat) : map Fin (repeat 0 k) = repeat zero k.
Proof.
  induction k as [| k IH]; cbn [repeat map]; [reflexivity | now rewrite IH].
Qed.

(** X4.  Silence in, silence out: on a finite configuration an all-zero
    input of any length gives the all-zero output of that length. *)
Theorem vibrato_silence (k : nat) (sr mf w : R) :
  sr <> 0 -> (0 <= width_samples w sr)%Z ->
  vibrato (repeat zero k) (Fin sr) (Fin mf) (Fin w) = Ok (repeat zero k).
Proof.
  intros Hsr HW. rewrite <- map_Fin_zeros at 1.
  rewrite vibrato_of_reals by assumption.
  assert (Hz : Forall (fun v => 0 <= v <= 0)
                 (vibrato_real sr mf w (repeat 0 k))).
  { unfold vibrato_real. apply Forall_app. split.
    - apply Forall_forall. intros v Hv. apply in_map_iff in Hv.
      destruct Hv as [n [<- _]]. apply out_real_in_range; [lra |].
      apply Forall_forall. intros u Hu. apply repeat_spec in Hu. subst u. lra.
    - apply Forall_forall. intros v Hv. apply repeat_spec in Hv. subst v. lra. }
  apply all_zero_is_repeat in Hz.
  rewrite length_vibrato_real, repeat_length in Hz.
  rewrite Hz. now rewrite map_Fin_zeros.
Qed.

Lemma vibrato_silence_witness :
  vibrato (repeat zero 4) (Fin 10) (Fin 5) (Fin (2 / 10)) =
  Ok (repeat zero 4).
Proof.
  apply (vibrato_silence 4 10 5 (2 / 10)).
  - lra.
  - rewrite width_samples_ramp. lia.
Defined.

(** ** What the output depends on *)

Lemma for_each_ext {S : Type} (body body' : nat -> S -> result S)
  (ns : list nat) (st : S) :
  (forall n s, In n ns -> body n s = body' n s) ->
  for_each body ns st = for_each body' ns st.
Proof.
  revert st. induction ns as [| n ns IH]; intros st H; cbn [for_each];
    [reflexivity |].
  rewrite (H n st) by now left.
  destruct (body' n st) as [st' |]; cbn [bind]; [| reflexivity].
  apply IH. intros k s Hk. apply H. now right.
Qed.

Lemma loop_body_ext (x x' : list num) (DELAY WIDTH : Z) (MODFREQ : num)
  (L : Z) (n : nat) (st : list num * list num) :
  getitem x (Z.of_nat n) = getitem x' (Z.of_nat n) ->
  loop_body x DELAY WIDTH MODFREQ L n st =
  loop_body x' DELAY WIDTH MODFREQ L n st.
Proof.
  intros H. unfold loop_body. destruct st as [Delayline y]. now rewrite H.
Qed.

(** X5.  The last input sample is never read: two inputs of the same length
    that agree on every sample but the last give the same result (the same
    output or the same exception), on every configuration. *)
Theorem vibrato_ignores_last_sample (x x' : list num)
  (SR Modfreq Width : num) :
  length x = length x' ->
  (forall n, (n < length x - 1)%nat -> nth n x zero = nth n x' zero) ->
  vibrato x SR Modfreq Width = vibrato x' SR Modfreq Width.
Proof.
  intros Hlen Hnth. unfold vibrato.
  destruct (derive_DELAY SR Width) as [DELAY |]; cbn [bind]; [| reflexivity].
  destruct (derive_WIDTH SR Width) as [WIDTH |]; cbn [bind]; [| reflexivity].
  unfold vibrato_body. destruct (WIDTH >? DELAY)%Z; [reflexivity |].
  destruct (ndiv Modfreq SR) as [MODFREQ |]; cbn [bind]; [| reflexivity].
  destruct (np_zeros _) as [Delayline |]; cbn [bind]; [| reflexivity].
  unfold np_zeros_like. rewrite <- Hlen.
  rewrite (for_each_ext _ (loop_body x' DELAY WIDTH MODFREQ
                             (2 + DELAY + WIDTH * 2))); [reflexivity |].
  intros n s Hn. apply loop_body_ext.
  unfold range in Hn. apply in_seq in Hn.
  rewrite !getitem_nonneg by lia. rewrite Nat2Z.id. f_equal. apply Hnth. lia.
Qed.

Lemma vibrato_ignores_last_sample_witness :
  vibrato [Fin 1; Fin 2; Fin 3] (Fin 10) (Fin 5) (Fin (2 / 10)) =
  vibrato [Fin 1; Fin 2; Fin 99] (Fin 10) (Fin 5) (Fin (2 / 10)).
Proof.
  apply (vibrato_ignores_last_sample [Fin 1; Fin 2; Fin 3]
           [Fin 1; Fin 2; Fin 99]).
  - reflexivity.
  - intros n Hn. cbn [length Nat.sub] in Hn.
    destruct n as [| [| n]]; [reflexivity | reflexivity | lia].
Defined.

Lemma delayline_after_ext (x x' : list num) (L : Z) (k : nat) :
  (forall j, (j < k)%nat -> nth j x zero = nth j x' zero) ->
  delayline_after x L k = delayline_after x' L k.
Proof.
  induction k as [| k IH]; intros H; cbn [delayline_after]; [reflexivity |].
  rewrite IH by (intros j Hj; apply H; lia).
  now rewrite (H k) by lia.
Qed.

(** X6.  Causality: on a finite configuration [y[n]] depends on the samples
    [x[0], ..., x[n]] alone.  Two inputs, of any lengths above [n + 1], that
    agree on their first [n + 1] samples have the same output sample [n]. *)
Theorem vibrato_causal (x x' : list num) (sr mf w : R) (n : nat) :
  sr <> 0 -> (0 <= width_samples w sr)%Z ->
  (n < length x - 1)%nat -> (n < length x' - 1)%nat ->
  (forall j, (j <= n)%nat -> nth j x zero = nth j x' zero) ->
  exists y y',
    vibrato x (Fin sr) (Fin mf) (Fin w) = Ok y /\
    vibrato x' (Fin sr) (Fin mf) (Fin w) = Ok y' /\
    nth n y zero = nth n y' zero.
Proof.
  intros Hsr HW Hn Hn' Hagree.
  exists (vibrato_out sr mf w x), (vibrato_out sr mf w x').
  split; [now apply vibrato_finite |]. split; [now apply vibrato_finite |].
  unfold vibrato_out.
  rewrite !app_nth1 by (unfold range; now rewrite length_map, length_seq).
  rewrite !nth_map_range by assumption.
  unfold out_of, out_sample.
  rewrite (delayline_after_ext x x') by (intros j Hj; apply Hagree; lia).
  reflexivity.
Qed.

Lemma vibrato_causal_witness :
  exists y y',
    vibrato [Fin 1; Fin 2; Fin 3; Fin 4] (Fin 10) (Fin 5) (Fin (2 / 10)) =
      Ok y /\
    vibrato [Fin 1; Fin 2; Fin 7; Fin 8; Fin 9] (Fin 10) (Fin 5)
      (Fin (2 / 10)) = Ok y' /\
    nth 1 y zero = nth 1 y' zero.
Proof.
  apply (vibrato_causal [Fin 1; Fin 2; Fin 3; Fin 4]
           [Fin 1; Fin 2; Fin 7; Fin 8; Fin 9] 10 5 (2 / 10) 1).
  - lra.
  - rewrite width_samples_ramp. lia.
  - cbn [length Nat.sub]. lia.
  - cbn [length Nat.sub]. lia.
  - intros j Hj. destruct j as [| [| j]]; [reflexivity | reflexivity | lia].
Defined.

(** ** The delay line is a sliding window *)

Lemma getitem_of_nat_ok (a : list num) (n : nat) (v : num) :
  getitem a (Z.of_nat n) = Ok v -> v = nth n a zero.
Proof.
  intros H. destruct (Z.lt_ge_cases (Z.of_nat n) (Z.of_nat (length a))).
  - rewrite getitem_nonneg, Nat2Z.id in H by lia. congruence.
  - rewrite getitem_out_of_bounds in H by lia. discriminate.
Qed.

Lemma loop_body_delayline (x : list num) (DELAY WIDTH : Z) (MODFREQ : num)
  (L : Z) (n : nat) (D y D' y' : list num) :
  loop_body x DELAY WIDTH MODFREQ L n (D, y) = Ok (D', y') ->
  D' = push L (nth n x zero) D.
Proof.
  unfold loop_body.
  destruct (getitem x (Z.of_nat n)) as [xn |] eqn:Ex; cbn [bind];
    [| discriminate].
  apply getitem_of_nat_ok in Ex. subst xn.
  destruct (interpolate _ _ _) as [v |]; cbn [bind]; [| discriminate].
  destruct (setitem y n v) as [y1 |]; cbn [bind]; [| discriminate].
  intros H. now inversion H.
Qed.

Lemma for_each_delayline (x : list num) (DELAY WIDTH : Z) (MODFREQ : num)
  (L : Z) (k : nat) (y0 D y : list num) :
  for_each (loop_body x DELAY WIDTH MODFREQ L) (range k)
    (repeat zero (Z.to_nat L), y0) = Ok (D, y) ->
  D = delayline_after x L k.
Proof.
  unfold range. revert D y. induction k as [| k IH]; intros D y.
  - cbn [seq for_each]. intros H. now inversion H.
  - rewrite seq_S, for_each_app. cbn [Nat.add].
    destruct (for_each _ (seq 0 k) _) as [[D1 y1] |] eqn:E; cbn [bind];
      [| discriminate].
    cbn [for_each].
    destruct (loop_body x DELAY WIDTH MODFREQ L k (D1, y1))
      as [[D2 y2] |] eqn:Eb; cbn [bind]; [| discriminate].
    intros H. inversion H; subst.
    apply loop_body_delayline in Eb. rewrite Eb.
    now rewrite (IH D1 y1 eq_refl).
Qed.

(** X7.  The delay line is a sliding window of the input: after the loop ran
    [k] iterations on a line of length [L >= 1] that started at zero, the
    line still has length [L], and slot [j] holds the sample pushed [j]
    iterations ago, [x[k - 1 - j]], when [j < k], and zero otherwise. *)
Theorem loop_delayline_window (x : list num) (DELAY WIDTH : Z)
  (MODFREQ : num) (L : Z) (k : nat) (y0 D y : list num) :
  (1 <= L)%Z ->
  for_each (loop_body x DELAY WIDTH MODFREQ L) (range k)
    (repeat zero (Z.to_nat L), y0) = Ok (D, y) ->
  length D = Z.to_nat L /\
  forall j, (j < Z.to_nat L)%nat ->
    nth j D zero = if (j <? k)%nat then nth (k - 1 - j) x zero else zero.
Proof.
  intros HL H. apply for_each_delayline in H. subst D. split.
  - now apply length_delayline_after.
  - intros j Hj. rewrite nth_delayline_after by assumption.
    destruct (Nat.ltb_spec j (Z.to_nat L)); [| lia].
    now rewrite andb_true_r.
Qed.

Lemma loop_delayline_window_witness :
  let x := map Fin ramp in
  exists D y,
    for_each (loop_body x 2 2 (Fin (1 / 2)) 8) (range 3)
      (repeat zero (Z.to_nat 8), np_zeros_like x) = Ok (D, y) /\
    length D = Z.to_nat 8 /\
    forall j, (j < Z.to_nat 8)%nat ->
      nth j D zero = if (j <? 3)%nat then nth (3 - 1 - j) x zero else zero.
Proof.
  intros x.
  assert (Hk : (3 <= length x)%nat) by (cbn; lia).
  assert (Hout : forall n, (n < 3)%nat ->
            out_sample x 2 2 (Fin (1 / 2)) 8 n =
            Ok (out_of x 2 2 (Fin (1 / 2)) 8 n)).
  { intros n _. apply (out_sample_finite x 2 2 (1 / 2) n). lia. }
  pose proof (for_each_loop_body x 2 2 (Fin (1 / 2)) 8
                (out_of x 2 2 (Fin (1 / 2)) 8) 3 Hk Hout) as E.
  eexists. eexists. split; [exact E |].
  apply (loop_delayline_window x 2 2 (Fin (1 / 2)) 8 3 _ _ _
           ltac:(lia) E).
Defined.

(** ** The width guard keeps the reads inside the line *)

(** X8.  With a finite modulation frequency and [0 <= WIDTH <= DELAY] (what
    the guard of line 11 lets through), in every iteration the tap index
    lies in [[DELAY - WIDTH, DELAY + WIDTH]], the fraction in [[0, 1)], and
    the two reads of the interpolation succeed on a line of length
    [L = 2 + DELAY + 2 * WIDTH]: the loop raises no [IndexError]. *)
Theorem tap_reads_succeed (DELAY WIDTH : Z) (m : R) (n : nat)
  (Delayline : list num) :
  (0 <= WIDTH <= DELAY)%Z ->
  length Delayline = Z.to_nat (2 + DELAY + WIDTH * 2) ->
  let i := tap_index DELAY WIDTH (Fin m) n in
  (DELAY - WIDTH <= i <= DELAY + WIDTH)%Z /\
  (exists f, tap_frac DELAY WIDTH (Fin m) n = Fin f /\ 0 <= f < 1) /\
  exists v,
    interpolate Delayline i (tap_frac DELAY WIDTH (Fin m) n) = Ok v.
Proof.
  intros HW Hlen i.
  pose proof (tap_index_bounds DELAY WIDTH m (proj1 HW) n) as Hi. fold i in Hi.
  split; [exact Hi |]. split.
  - eexists. split; [apply tap_frac_finite |]. apply tap_frac_bounds.
  - destruct (interpolate_ok Delayline i (tap_frac DELAY WIDTH (Fin m) n))
      as (a & b & _ & _ & Hv); [rewrite Hlen; lia | rewrite Hlen; lia |].
    eexists. exact Hv.
Qed.

Lemma tap_reads_succeed_witness :
  let i := tap_index 3 2 (Fin (1 / 7)) 5 in
  (3 - 2 <= i <= 3 + 2)%Z /\
  (exists f, tap_frac 3 2 (Fin (1 / 7)) 5 = Fin f /\ 0 <= f < 1) /\
  exists v,
    interpolate (repeat zero 9) i (tap_frac 3 2 (Fin (1 / 7)) 5) = Ok v.
Proof.
  apply (tap_reads_succeed 3 2 (1 / 7) 5 (repeat zero 9)).
  - lia.
  - reflexivity.
Defined.

(** ** A zero sample rate *)

(** X9.  A sample rate of zero with a finite width makes [vibrato] raise
    [ZeroDivisionError] at [Modfreq / SAMPLERATE] (a division of Python
    scalars), whatever the input and the modulation frequency, finite or
    not: the width in samples is [round(0) = 0], the width guard lets it
    through, and the division comes before the delay line is allocated. *)
Theorem vibrato_zero_samplerate (x : list num) (Modfreq : num) (w : R) :
  derive_DELAY (Fin 0) (Fin w) = Ok 0%Z /\
  derive_WIDTH (Fin 0) (Fin w) = Ok 0%Z /\
  vibrato x (Fin 0) Modfreq (Fin w) =
  Raise (ZeroDivisionError "float division by zero").
Proof.
  assert (HW : py_round (nmul (Fin w) (Fin 0)) = Ok 0%Z).
  { cbn [nmul py_round]. f_equal.
    replace (w * 0) with (IZR 0) by ring. apply round_half_even_IZR. }
  split; [exact HW |]. split; [exact HW |].
  unfold vibrato, derive_DELAY, derive_WIDTH. rewrite HW. cbn [bind].
  unfold vibrato_body. cbn [Z.gtb Z.compare]. unfold ndiv.
  destruct (Req_dec_T 0 0) as [_ | H0]; [reflexivity |].
  now contradiction H0.
Qed.

(** ** Fixed delays *)

Lemma vibrato_zero_modulation_witness :
  exists y,
    vibrato (map Fin count_up) (Fin 4) (Fin 0) (Fin (1 / 2)) = Ok y /\
    nth 5 y zero = Fin (nth 4 count_up 0).
Proof.
  assert (H4 : 4 <> 0) by lra.
  assert (HW : (1 <= width_samples (1 / 2) 4)%Z)
    by (rewrite width_samples_half_second; lia).
  assert (Hn : (5 < length count_up - 1)%nat) by (cbn; lia).
  destruct (vibrato_zero_modulation count_up 4 (1 / 2) 5 H4 HW Hn)
    as [y [Hy Hnth]].
  exists y. split; [exact Hy |].
  rewrite Hnth, width_samples_half_second. reflexivity.
Defined.

Lemma tap_real_zero_width (m : R) (n : nat) : tap_real 0 0 m n = IZR 0.
Proof. unfold tap_real. ring. Qed.

(** X12.  When the width rounds to zero samples ([DELAY = WIDTH = 0],
    [L = 2]) the tap is 0 in every iteration, whatever the modulation
    frequency: the second read is [Delayline[-1]], the last slot of the
    two-slot line, and the output is the input delayed by one sample:
    [y[0] = 0] and [y[n] = x[n - 1]] for [1 <= n < len(x) - 1]. *)
Theorem vibrato_zero_width (xs : list R) (sr mf w : R) (n : nat) :
  sr <> 0 -> width_samples w sr = 0%Z -> (n < length xs - 1)%nat ->
  exists y,
    vibrato (map Fin xs) (Fin sr) (Fin mf) (Fin w) = Ok y /\
    tap_index 0 0 (Fin (mf / sr)) n = 0%Z /\
    nth n y zero = Fin (if (1 <=? n)%nat then nth (n - 1) xs 0 else 0).
Proof.
  intros Hsr HW Hn. eexists. split; [| split].
  - apply vibrato_finite; [assumption | lia].
  - rewrite tap_index_finite, tap_real_zero_width. apply Rfloor_IZR.
  - unfold vibrato_out. rewrite length_map, HW.
    rewrite app_nth1 by (unfold range; now rewrite length_map, length_seq).
    rewrite nth_map_range by assumption.
    apply (proj2 (out_of_tap_zero xs 0 0 2 (mf / sr) n 0
                    (tap_real_zero_width (mf / sr) n) eq_refl ltac:(lia))).
Qed.

Lemma width_samples_hundredth : width_samples (1 / 100) 10 = 0%Z.
Proof.
  unfold width_samples, round_half_even.
  assert (Hf : Rfloor (1 / 100 * 10) = 0%Z) by (apply Rfloor_unique; lra).
  rewrite Hf.
  destruct (Rlt_dec (1 / 100 * 10 - 0) (1 / 2)) as [_ | H]; [reflexivity | lra].
Qed.

Lemma vibrato_zero_width_witness :
  exists y,
    vibrato (map Fin ramp) (Fin 10) (Fin 5) (Fin (1 / 100)) = Ok y /\
    tap_index 0 0 (Fin (5 / 10)) 4 = 0%Z /\
    nth 4 y zero = Fin (nth 3 ramp 0).
Proof.
  apply (vibrato_zero_width ramp 10 5 (1 / 100) 4).
  - lra.
  - apply width_samples_hundredth.
  - cbn. lia.
Defined.

(** ** The dispatch of [process_audio_file] *)



